(** * Anti-sleep: the fatigue-scoring loop of [main.py]

    A shallow embedding of [VideoCamera.get_frame] and of the module-level
    state it reads and writes, followed by the properties of the scoring
    state machine.

    What is kept of the source: the fatigue score [self.score], the
    module global [alarm_active], the module global [alarm_sound] (a
    [pygame.mixer.Sound] or [None]), the local variables [status] and
    [color], the calls made on the sound object, and the control flow of
    [get_frame] (early return, the no-face reset, the loop over faces, the
    two branches of the loop body).  What is abstracted: pixels.  A camera
    read together with the two cascade detectors is represented by what
    they return, a list of faces each carrying the list of eyes found
    inside it; the JPEG returned by [get_frame] is represented by the text
    of the overlay drawn on it. *)

From stdpp Require Import gmap strings list pretty.
From Stdlib Require Import ZArith Lia.

Open Scope Z_scope.

(** ** Configuration (main.py, lines 10-11) *)

Definition ALARM_FILE : string := "1.mp3".
Definition SLEEP_THRESHOLD : Z := 15.

(** ** The alarm sound (main.py, lines 22-27) *)

(** A loaded [pygame.mixer.Sound]; the only thing the program ever does
    with it is to call [play(-1)] and [stop()]. *)
Inductive Sound : Type :=
| MixerSound (file : string).

(** [os.path.exists(ALARM_FILE)] decides whether the sound is loaded. *)
Definition load_alarm_sound (file_exists : bool) : option Sound :=
  if file_exists then Some (MixerSound ALARM_FILE) else None.

(** Python truth value of [alarm_sound]: [None] is false, a [Sound]
    object is true. *)
Definition truthy (alarm_sound : option Sound) : bool :=
  match alarm_sound with
  | Some _ => true
  | None => false
  end.

(** The calls [get_frame] makes on the sound object. *)
Inductive MixerCall : Type :=
| Play (loops : Z)
| Stop.

(** ** What the camera and the detectors deliver *)

Definition Rect : Type := Z * Z * Z * Z.

(** One element of [faces], with the result of the eye cascade run on its
    region of interest. *)
Record Face : Type := mkFace {
  box : Rect;
  eyes : list Rect
}.

(** [success, image = self.video.read()] followed by
    [face_cascade.detectMultiScale]. *)
Record Capture : Type := mkCapture {
  success : bool;
  faces : list Face
}.

(** ** Program state *)

Definition Color : Type := Z * Z * Z.
Definition GREEN : Color := (0, 255, 0).
Definition RED : Color := (0, 0, 255).

(** [score] is [self.score] of the camera object that runs [get_frame];
    [alarm_active] is the module global of line 29. *)
Record State : Type := mkState {
  score : Z;
  alarm_active : bool
}.

(** The state inside one call of [get_frame]: the heap part, the locals
    [status] and [color], and the calls made on the sound so far in this
    call (oldest first). *)
Record Env : Type := mkEnv {
  st : State;
  status : string;
  color : Color;
  mixer : list MixerCall
}.

Definition set_score (z : Z) (e : Env) : Env :=
  mkEnv (mkState z (alarm_active (st e))) (status e) (color e) (mixer e).

Definition set_alarm_active (b : bool) (e : Env) : Env :=
  mkEnv (mkState (score (st e)) b) (status e) (color e) (mixer e).

Definition set_status (s : string) (e : Env) : Env :=
  mkEnv (st e) s (color e) (mixer e).

Definition set_color (c : Color) (e : Env) : Env :=
  mkEnv (st e) (status e) c (mixer e).

Definition call (m : MixerCall) (e : Env) : Env :=
  mkEnv (st e) (status e) (color e) (mixer e ++ [m]).

(** The text overlay drawn on the image (lines 131-132); it stands for
    the bytes [get_frame] returns. *)
Record Hud : Type := mkHud {
  hud_status : string;
  hud_color : Color;
  hud_score : Z
}.

(** ** [get_frame] *)

(** The body of [for (x, y, w, h) in faces:] (lines 83-126). *)
Definition face_body (alarm_sound : option Sound) (e : Env) (f : Face) : Env :=
  if (length (eyes f) =? 0)%nat then
    let e1 := set_score (score (st e) + 1) e in
    let e2 := set_status "Eyes Closed" e1 in
    if score (st e2) >? SLEEP_THRESHOLD then
      let e3 := set_status "DROWSINESS ALERT!" e2 in
      let e4 := set_color RED e3 in
      if negb (alarm_active (st e4)) && truthy alarm_sound then
        set_alarm_active true (call (Play (-1)) e4)
      else e4
    else e2
  else
    let e1 := set_score (score (st e) - 1) e in
    let e2 := if score (st e1) <? 0 then set_score 0 e1 else e1 in
    let e3 := set_status "Awake" e2 in
    if alarm_active (st e3) && truthy alarm_sound then
      set_alarm_active false (call Stop e3)
    else e3.

(** Lines 74-126: the locals are initialised, the no-face reset runs,
    then the loop. *)
Definition process_faces (alarm_sound : option Sound) (fs : list Face) (s : State) : Env :=
  let e0 := mkEnv s "Active" GREEN [] in
  let e1 := if (length fs =? 0)%nat
            then set_status "No Face Found" (set_score 0 e0)
            else e0 in
  fold_left (face_body alarm_sound) fs e1.

(** What one call of [get_frame] leaves behind and returns. *)
Record Out : Type := mkOut {
  after : State;
  returned : option Hud;
  calls : list MixerCall
}.

Definition get_frame (alarm_sound : option Sound) (c : Capture) (s : State) : Out :=
  if negb (success c) then mkOut s None []
  else
    let e := process_faces alarm_sound (faces c) s in
    mkOut (st e) (Some (mkHud (status e) (color e) (score (st e)))) (mixer e).

(** ** A monitoring session *)

(** [VideoCamera.__init__] sets [self.score = 0]; the module sets
    [alarm_active = False] once, when it is loaded. *)
Definition initial : State := mkState 0 false.

(** The loop of [gen]: [get_frame] is called on one capture after the
    other. *)
Definition run (alarm_sound : option Sound) (cs : list Capture) (s : State) : State :=
  fold_left (fun s c => after (get_frame alarm_sound c s)) cs s.

(** The samples of the state machine, as captures. *)
Definition face_lost : Capture := mkCapture true [].
Definition one_face (f : Face) : Capture := mkCapture true [f].
Definition closed_face (b : Rect) : Face := mkFace b [].
Definition open_face (b : Rect) (e : Rect) (es : list Rect) : Face := mkFace b (e :: es).
Definition eyes_closed (b : Rect) : Capture := one_face (closed_face b).
Definition eyes_open (b : Rect) (e : Rect) (es : list Rect) : Capture :=
  one_face (open_face b e es).

(** ** Several sessions in one process *)

(** A [VideoCamera] object; besides the capture handle its only
    attribute is [self.score]. *)
Record VideoCamera : Type := mkCamera {
  self_score : Z
}.

(** The module globals [alarm_sound] and [alarm_active], and the camera
    objects alive in the process, one per request to [/video_feed]. *)
Record Process : Type := mkProcess {
  g_alarm_sound : option Sound;
  g_alarm_active : bool;
  cameras : gmap nat VideoCamera
}.

(** Module initialisation (lines 22-29). *)
Definition startup (file_exists : bool) : Process :=
  mkProcess (load_alarm_sound file_exists) false ∅.

(** [video_feed] builds [VideoCamera()]: [__init__] sets [self.score = 0]
    and declares [global alarm_active] without assigning it. *)
Definition video_feed (p : Process) : nat * Process :=
  let id := fresh (dom (cameras p)) in
  (id, mkProcess (g_alarm_sound p) (g_alarm_active p) (<[id := mkCamera 0]> (cameras p))).

(** The state a session's [get_frame] reads: its own score and the
    module global. *)
Definition view (p : Process) (id : nat) : option State :=
  match cameras p !! id with
  | Some cam => Some (mkState (self_score cam) (g_alarm_active p))
  | None => None
  end.

(** One iteration of [gen(camera)] for the session [id]. *)
Definition next_frame (id : nat) (c : Capture) (p : Process) : Process :=
  match view p id with
  | Some s =>
      let o := get_frame (g_alarm_sound p) c s in
      mkProcess (g_alarm_sound p) (alarm_active (after o))
                (<[id := mkCamera (score (after o))]> (cameras p))
  | None => p
  end.

(** ** Statements that are tested against the code *)

(** The latch goes from off to on only where the score crosses the
    threshold from at most [SLEEP_THRESHOLD] to above it. *)
Definition latch_on_only_at_first_crossing (alarm_sound : option Sound) : Prop :=
  forall (cs : list Capture) (f : Face),
    let s := run alarm_sound cs initial in
    let s' := after (get_frame alarm_sound (one_face f) s) in
    alarm_active s = false -> alarm_active s' = true ->
    score s <= SLEEP_THRESHOLD /\ SLEEP_THRESHOLD < score s'.

(** Of the faces of a capture only the last one counts: the score, the
    latch and the status are those of a capture showing the last face
    alone. *)
Definition only_last_face_counts (alarm_sound : option Sound) : Prop :=
  forall (fs : list Face) (f : Face) (s : State),
    let o := get_frame alarm_sound (mkCapture true (fs ++ [f])) s in
    let o1 := get_frame alarm_sound (mkCapture true [f]) s in
    after o = after o1 /\
    hud_status <$> returned o = hud_status <$> returned o1.

(** The score is written at most once within a capture: it ends at most
    1 away from where it started, or at 0 (the reset, or the clamp). *)
Definition score_mutated_at_most_once (alarm_sound : option Sound) : Prop :=
  forall (c : Capture) (s : State),
    Z.abs (score (after (get_frame alarm_sound c s)) - score s) <= 1 \/
    score (after (get_frame alarm_sound c s)) = 0.

(** A capture makes at most one call on the sound. *)
Definition at_most_one_call_per_frame (alarm_sound : option Sound) : Prop :=
  forall (c : Capture) (s : State),
    (length (calls (get_frame alarm_sound c s)) <= 1)%nat.

(** A frame of one session leaves the latch seen by another session as
    it was. *)
Definition frames_keep_other_latch : Prop :=
  forall (p : Process) (i j : nat) (c : Capture),
    i <> j ->
    alarm_active <$> view (next_frame i c p) j = alarm_active <$> view p j.

(** A new session sees the latch off, whatever the other sessions did. *)
Definition new_session_latch_off : Prop :=
  forall (p : Process),
    alarm_active <$> view (video_feed p).2 (video_feed p).1 = Some false.

(** ** Concrete inputs used in examples *)

Definition a_box : Rect := (40, 30, 120, 120).
Definition an_eye : Rect := (20, 35, 30, 18).
Definition the_sound : option Sound := load_alarm_sound true.
Definition no_sound : option Sound := load_alarm_sound false.

(** [n] captures in a row that show one face with no eye found. *)
Definition closed_streak (n : nat) : list Capture := repeat (eyes_closed a_box) n.

(** [n] captures in a row that show one face with one eye found. *)
Definition open_streak (n : nat) : list Capture := repeat (eyes_open a_box an_eye []) n.

(** The iterations of [gen(camera)] for the session [id] on the captures
    [cs], with no frame of another session in between. *)
Definition session_run (id : nat) (cs : list Capture) (p : Process) : Process :=
  fold_left (fun p c => next_frame id c p) cs p.

(** A process whose alarm file exists and that has served two requests
    to [/video_feed]; the sessions are numbered 0 and 1. *)
Definition two_sessions : Process :=
  (video_feed (video_feed (startup true)).2).2.

(** ** What [get_frame] draws *)

(** The array a drawing call writes to: [image], or [roi_color], the
    slice [image[y:y+h, x:x+w]] of the face with the box [(x, y, w, h)]. *)
Inductive Canvas : Type :=
| Image
| RoiColor (face_box : Rect).

(** The calls [cv2.rectangle(canvas, pt1, pt2, color, thickness)] and
    [cv2.putText(image, text, org, font, scale, color, thickness)]; the
    font and the scale are left out. *)
Inductive Draw : Type :=
| Rectangle (canvas : Canvas) (pt1 pt2 : Z * Z) (col : Color) (thickness : Z)
| PutText (text : string) (org : Z * Z) (col : Color) (thickness : Z).

Definition eye_box (roi : Rect) (eye : Rect) : Draw :=
  let '(ex, ey, ew, eh) := eye in
  Rectangle (RoiColor roi) (ex, ey) (ex + ew, ey + eh) (0, 255, 0) 2.

(** The drawing calls of the loop body (lines 84, 104, 125-126) for the
    face [f], when the body is entered in the state [e]. *)
Definition face_draws (e : Env) (f : Face) : list Draw :=
  let '(x, y, w, h) := box f in
  Rectangle Image (x, y) (x + w, y + h) (100, 100, 100) 2 ::
  (if (length (eyes f) =? 0)%nat then
     let e1 := set_score (score (st e) + 1) e in
     if score (st e1) >? SLEEP_THRESHOLD then
       [PutText "WAKE UP!" (x, y - 10) (0, 0, 255) 3]
     else []
   else map (eye_box (box f)) (eyes f)).

(** The drawing calls of the whole loop, face after face. *)
Fixpoint loop_draws (alarm_sound : option Sound) (e : Env) (fs : list Face) : list Draw :=
  match fs with
  | [] => []
  | f :: fs' => face_draws e f ++ loop_draws alarm_sound (face_body alarm_sound e f) fs'
  end.

(** The overlay of lines 130-132, drawn after the loop. *)
Definition hud_draws (e : Env) : list Draw :=
  [Rectangle Image (0, 0) (300, 80) (0, 0, 0) (-1);
   PutText ("Status: " +:+ status e) (10, 30) (color e) 2;
   PutText ("Fatigue Score: " +:+ pretty (score (st e))) (10, 60) (255, 255, 255) 2].

(** All drawing calls of one call of [get_frame], in order. *)
Definition frame_draws (alarm_sound : option Sound) (c : Capture) (s : State) : list Draw :=
  if negb (success c) then []
  else
    let e0 := mkEnv s "Active" GREEN [] in
    let e1 := if (length (faces c) =? 0)%nat
              then set_status "No Face Found" (set_score 0 e0)
              else e0 in
    loop_draws alarm_sound e1 (faces c) ++
    hud_draws (process_faces alarm_sound (faces c) s).

(** The banner of line 104, wherever it is put. *)
Definition is_banner (d : Draw) : bool :=
  match d with
  | PutText text _ _ _ => bool_decide (text = "WAKE UP!"%string)
  | Rectangle _ _ _ _ _ => false
  end.

(** ** Counting and logging over a session *)

(** The faces of [fs] in which the eye cascade found nothing. *)
Fixpoint count_closed (fs : list Face) : nat :=
  match fs with
  | [] => 0
  | f :: fs' => (if (length (eyes f) =? 0)%nat then 1 else 0) + count_closed fs'
  end.

(** The eyes-closed observations of a sequence of captures: the faces
    without eyes of the captures that were read. *)
Fixpoint closed_seen (cs : list Capture) : nat :=
  match cs with
  | [] => 0
  | c :: cs' => (if success c then count_closed (faces c) else 0) + closed_seen cs'
  end.

(** The calls made on the sound during [run], oldest first. *)
Fixpoint run_calls (alarm_sound : option Sound) (cs : list Capture) (s : State)
  : list MixerCall :=
  match cs with
  | [] => []
  | c :: cs' =>
      calls (get_frame alarm_sound c s) ++
      run_calls alarm_sound cs' (after (get_frame alarm_sound c s))
  end.

(** A sound that is [playing] or not receives the calls of [log]; the
    result is whether it plays afterwards, or [None] when some call was
    redundant: [play] on a sound that plays, [stop] on one that does
    not. *)
Fixpoint replay (playing : bool) (log : list MixerCall) : option bool :=
  match log with
  | [] => Some playing
  | Play _ :: log' => if playing then None else replay true log'
  | Stop :: log' => if playing then replay false log' else None
  end.

(** ** Interleaved sessions *)


(** A schedule says which session processes which capture next; [serve]
    runs the schedule. *)
Definition serve (sched : list (nat * Capture)) (p : Process) : Process :=
  fold_left (fun p ic => next_frame ic.1 ic.2 p) sched p.


(** The captures of the schedule that belong to the session [id]. *)
Fixpoint captures_of (id : nat) (sched : list (nat * Capture)) : list Capture :=
  match sched with
  | [] => []
  | ic :: sched' =>
      if (ic.1 =? id)%nat then ic.2 :: captures_of id sched' else captures_of id sched'
  end.

(** The captures that were read. *)
Fixpoint read_ok (cs : list Capture) : list Capture :=
  match cs with
  | [] => []
  | c :: cs' => if success c then c :: read_ok cs' else read_ok cs'
  end.

(** The status line as a function of the last face processed and of the
    score reached. *)
Definition status_of (last_face : option Face) (final_score : Z) : string :=
  match last_face with
  | None => "No Face Found"
  | Some f =>
      if (length (eyes f) =? 0)%nat then
        if final_score >? SLEEP_THRESHOLD then "DROWSINESS ALERT!" else "Eyes Closed"
      else "Awake"
  end.

(** The state [s] is within the budget of [n] eyes-closed observations:
    the score is at most [n], and the latch is on only if [n] is above
    the threshold. *)
Definition within_budget (s : State) (n : nat) : Prop :=
  score s <= Z.of_nat n /\
  (alarm_active s = true -> SLEEP_THRESHOLD < Z.of_nat n).


(** ** The part of the loop body that reaches the heap *)

(** The heap effect of one face: the score and latch that [face_body]
    leaves, as a function of the score and latch it finds.  A proof
    device; [face_body_st] ties it to the code. *)
Definition heap_effect (alarm_sound : option Sound) (s : State) (f : Face) : State :=
  if (length (eyes f) =? 0)%nat then
    mkState (score s + 1)
            (if score s + 1 >? SLEEP_THRESHOLD
             then alarm_active s || truthy alarm_sound
             else alarm_active s)
  else
    mkState (Z.max 0 (score s - 1))
            (alarm_active s && negb (truthy alarm_sound)).

(** In every state the program reaches, an active latch means that the
    sound was loaded. *)
Definition latch_consistent (alarm_sound : option Sound) (s : State) : Prop :=
  alarm_active s = true -> truthy alarm_sound = true.

(** An active latch goes with a score above the threshold; this holds
    inside a capture that shows faces, not across a face-lost capture. *)
Definition latch_above (s : State) : Prop :=
  alarm_active s = true -> SLEEP_THRESHOLD < score s.

Lemma face_body_st (alarm_sound : option Sound) (e : Env) (f : Face) :
  st (face_body alarm_sound e f) = heap_effect alarm_sound (st e) f.
Proof.
  unfold face_body, heap_effect.
  destruct e as [[sc act] stt col mx]; cbn.
  destruct (length (eyes f) =? 0)%nat; cbn.
  - destruct (Z.gtb_spec (sc + 1) SLEEP_THRESHOLD); cbn; [|reflexivity].
    destruct act, (truthy alarm_sound); reflexivity.
  - destruct (Z.ltb_spec (sc - 1) 0); cbn.
    + rewrite Z.max_l by lia.
      destruct act, (truthy alarm_sound); reflexivity.
    + rewrite Z.max_r by lia.
      destruct act, (truthy alarm_sound); reflexivity.
Qed.

Lemma fold_face_body_st (alarm_sound : option Sound) (fs : list Face) (e : Env) :
  st (fold_left (face_body alarm_sound) fs e) =
  fold_left (heap_effect alarm_sound) fs (st e).
Proof.
  revert e; induction fs as [|f fs IH]; intros e; cbn; [reflexivity|].
  now rewrite IH, face_body_st.
Qed.

(** The heap after a capture: nothing on a failed read, the reset on an
    empty list of faces, the fold of the heap effect otherwise. *)
Lemma get_frame_after (alarm_sound : option Sound) (c : Capture) (s : State) :
  after (get_frame alarm_sound c s) =
  if negb (success c) then s
  else match faces c with
       | [] => mkState 0 (alarm_active s)
       | _ :: _ => fold_left (heap_effect alarm_sound) (faces c) s
       end.
Proof.
  unfold get_frame. destruct (success c); cbn; [|reflexivity].
  unfold process_faces. rewrite fold_face_body_st.
  destruct (faces c); reflexivity.
Qed.

Lemma run_app (alarm_sound : option Sound) (cs1 cs2 : list Capture) (s : State) :
  run alarm_sound (cs1 ++ cs2) s = run alarm_sound cs2 (run alarm_sound cs1 s).
Proof. unfold run. apply fold_left_app. Qed.

Lemma run_snoc (alarm_sound : option Sound) (cs : list Capture) (c : Capture) (s : State) :
  run alarm_sound (cs ++ [c]) s =
  after (get_frame alarm_sound c (run alarm_sound cs s)).
Proof. now rewrite run_app. Qed.

(** A property kept by every capture is kept by every run. *)
Lemma run_invariant (alarm_sound : option Sound) (P : State -> Prop) :
  (forall c s, P s -> P (after (get_frame alarm_sound c s))) ->
  forall cs s, P s -> P (run alarm_sound cs s).
Proof.
  intros Hstep cs. induction cs as [|c cs IH]; intros s Hs; cbn; [assumption|].
  apply IH, Hstep, Hs.
Qed.

(** A property kept by every face and by the reset is kept by every
    capture. *)
Lemma get_frame_invariant (alarm_sound : option Sound) (P : State -> Prop) :
  (forall s f, P s -> P (heap_effect alarm_sound s f)) ->
  (forall s, P s -> P (mkState 0 (alarm_active s))) ->
  forall c s, P s -> P (after (get_frame alarm_sound c s)).
Proof.
  intros Hface Hreset c s Hs. rewrite get_frame_after.
  destruct (success c); cbn; [|assumption].
  destruct (faces c) as [|f fs] eqn:E; [now apply Hreset|].
  clear E. generalize (f :: fs) as l. intros l; revert s Hs.
  induction l as [|g l IH]; intros s Hs; cbn; [assumption|].
  apply IH, Hface, Hs.
Qed.

Lemma heap_effect_nonneg (alarm_sound : option Sound) (s : State) (f : Face) :
  0 <= score s -> 0 <= score (heap_effect alarm_sound s f).
Proof.
  intros Hs. unfold heap_effect.
  destruct (length (eyes f) =? 0)%nat; cbn; lia.
Qed.

Lemma heap_effect_consistent (alarm_sound : option Sound) (s : State) (f : Face) :
  latch_consistent alarm_sound s -> latch_consistent alarm_sound (heap_effect alarm_sound s f).
Proof.
  unfold latch_consistent, heap_effect. intros Hs.
  destruct (length (eyes f) =? 0)%nat; cbn.
  - destruct (score s + 1 >? SLEEP_THRESHOLD); [|assumption].
    destruct (alarm_active s), (truthy alarm_sound); cbn; auto.
  - destruct (alarm_active s), (truthy alarm_sound); cbn; auto.
Qed.

(** Every state of a session satisfies [latch_consistent]. *)
Lemma run_latch_consistent (alarm_sound : option Sound) (cs : list Capture) :
  latch_consistent alarm_sound (run alarm_sound cs initial).
Proof.
  apply run_invariant; [|discriminate].
  apply get_frame_invariant; [apply heap_effect_consistent|].
  intros s Hs; exact Hs.
Qed.

(** ** The score never goes negative *)

(** C3. Started from the initial state (score 0, latch off), the score is
    at least 0 after every capture of every sequence of captures, whether
    or not the sound was loaded: after [k] captures, for every [k]. *)
Theorem score_never_negative (alarm_sound : option Sound) (cs : list Capture) (k : nat) :
  0 <= score (run alarm_sound (take k cs) initial).
Proof.
  apply (run_invariant alarm_sound (fun s => 0 <= score s)); [|cbn; lia].
  apply (get_frame_invariant alarm_sound (fun s => 0 <= score s)).
  - intros s f; apply heap_effect_nonneg.
  - intros s _; cbn; lia.
Qed.

(** ** The three branches, one capture at a time *)

(** C4. From any state, a capture in which no face is found sets the
    score to 0, reports "No Face Found", leaves the latch as it was and
    makes no call on the sound. *)
Theorem face_lost_step (alarm_sound : option Sound) (s : State) :
  get_frame alarm_sound face_lost s =
  mkOut (mkState 0 (alarm_active s)) (Some (mkHud "No Face Found" GREEN 0)) [].
Proof. reflexivity. Qed.

(** C5. From any state, a capture with one face and no eye adds exactly 1
    to the score, whatever the score was.  When the new score is above
    [SLEEP_THRESHOLD] the status is "DROWSINESS ALERT!"; a latch that is
    already on stays on and nothing is played again; a latch that is off
    is turned on with one [play(-1)], provided the sound was loaded.  When
    the new score is not above the threshold the status is "Eyes Closed",
    the latch is as before and no call is made. *)
Theorem eyes_closed_step (alarm_sound : option Sound) (s : State) (b : Rect) :
  let o := get_frame alarm_sound (eyes_closed b) s in
  score (after o) = score s + 1 /\
  (SLEEP_THRESHOLD < score s + 1 ->
     hud_status <$> returned o = Some "DROWSINESS ALERT!"%string /\
     (alarm_active s = true -> alarm_active (after o) = true /\ calls o = []) /\
     (alarm_active s = false ->
        alarm_active (after o) = truthy alarm_sound /\
        calls o = if truthy alarm_sound then [Play (-1)] else [])) /\
  (score s + 1 <= SLEEP_THRESHOLD ->
     hud_status <$> returned o = Some "Eyes Closed"%string /\
     alarm_active (after o) = alarm_active s /\
     calls o = []).
Proof.
  destruct s as [sc act].
  unfold get_frame, process_faces, face_body; cbn.
  destruct (Z.gtb_spec (sc + 1) SLEEP_THRESHOLD) as [Hgt|Hle]; cbn.
  - split; [|split]; [| |lia].
    + destruct act, (truthy alarm_sound); reflexivity.
    + intros _. destruct act, (truthy alarm_sound); cbn;
        (split; [reflexivity|]); split; intros; try discriminate; split; reflexivity.
  - split; [reflexivity|]. split; [lia|]. intros _. repeat split.
Qed.

(** C6. From any state in which an active latch goes with a loaded sound
    (every state of a session is such a state), a capture with one face
    and at least one eye takes 1 off the score but not below 0, reports
    "Awake" and leaves the latch off; an active latch is cleared with one
    [stop()] whatever the score is, also when the score stays above
    [SLEEP_THRESHOLD]. *)
Theorem eyes_open_step (alarm_sound : option Sound) (s : State) (b e : Rect) (es : list Rect) :
  latch_consistent alarm_sound s ->
  let o := get_frame alarm_sound (eyes_open b e es) s in
  score (after o) = Z.max 0 (score s - 1) /\
  hud_status <$> returned o = Some "Awake"%string /\
  alarm_active (after o) = false /\
  calls o = if alarm_active s then [Stop] else [].
Proof.
  unfold latch_consistent. destruct s as [sc act]; cbn [alarm_active score].
  intros Hc.
  unfold get_frame, process_faces, face_body; cbn.
  destruct (Z.ltb_spec (sc - 1) 0); cbn.
  - rewrite Z.max_l by lia.
    destruct act; cbn; [rewrite Hc by reflexivity|]; cbn; repeat split.
  - rewrite Z.max_r by lia.
    destruct act; cbn; [rewrite Hc by reflexivity|]; cbn; repeat split.
Qed.

(** Witness for C6: the latch is on and the score is 17; one capture
    with an eye leaves the score at 16, above the threshold, and the latch
    off. *)
Lemma eyes_open_step_witness :
  latch_consistent the_sound (mkState 17 true) /\
  let o := get_frame the_sound (eyes_open a_box an_eye []) (mkState 17 true) in
  score (after o) = Z.max 0 (17 - 1) /\
  hud_status <$> returned o = Some "Awake"%string /\
  alarm_active (after o) = false /\
  calls o = [Stop].
Proof.
  assert (H : latch_consistent the_sound (mkState 17 true))
    by (unfold latch_consistent; reflexivity).
  split; [exact H|].
  exact (eyes_open_step the_sound (mkState 17 true) a_box an_eye [] H).
Defined.

(** ** How the latch moves *)

Section LatchMoves.

Variable alarm_sound : option Sound.

(** Without a sound no face changes the latch. *)
Lemma heap_effect_silent (s : State) (f : Face) :
  truthy alarm_sound = false ->
  alarm_active (heap_effect alarm_sound s f) = alarm_active s.
Proof.
  intros Hn. unfold heap_effect. rewrite Hn.
  destruct (length (eyes f) =? 0)%nat; cbn.
  - destruct (score s + 1 >? SLEEP_THRESHOLD), (alarm_active s); reflexivity.
  - destruct (alarm_active s); reflexivity.
Qed.

Lemma get_frame_silent (c : Capture) (s : State) :
  truthy alarm_sound = false ->
  alarm_active (after (get_frame alarm_sound c s)) = alarm_active s.
Proof.
  intros Hn.
  apply (get_frame_invariant alarm_sound
           (fun s' => alarm_active s' = alarm_active s)); [| |reflexivity].
  - intros s' f Hs'. now rewrite heap_effect_silent.
  - intros s' Hs'; exact Hs'.
Qed.

Lemma run_silent (cs : list Capture) (s : State) :
  truthy alarm_sound = false ->
  alarm_active (run alarm_sound cs s) = alarm_active s.
Proof.
  intros Hn.
  apply (run_invariant alarm_sound (fun s' => alarm_active s' = alarm_active s));
    [|reflexivity].
  intros c s' Hs'. now rewrite get_frame_silent.
Qed.

(** With the sound loaded, a face after which the latch is on showed no
    eye, and either brought the score above the threshold or found the
    latch on. *)
Lemma heap_effect_on (s : State) (f : Face) :
  truthy alarm_sound = true ->
  alarm_active (heap_effect alarm_sound s f) = true ->
  eyes f = [] /\
  score (heap_effect alarm_sound s f) = score s + 1 /\
  (SLEEP_THRESHOLD < score s + 1 \/
   (alarm_active s = true /\ score s + 1 <= SLEEP_THRESHOLD)).
Proof.
  intros Hy. unfold heap_effect. rewrite Hy.
  destruct (eyes f) as [|e es]; cbn.
  - destruct (Z.gtb_spec (score s + 1) SLEEP_THRESHOLD); intros Hon; auto.
  - rewrite andb_false_r. discriminate.
Qed.

(** The same over the faces of one capture: when the latch is on after
    the last face, the score is above the threshold there, or the latch
    was on before the first face. *)
Lemma faces_on (fs : list Face) (s : State) :
  truthy alarm_sound = true ->
  alarm_active (fold_left (heap_effect alarm_sound) fs s) = true ->
  SLEEP_THRESHOLD < score (fold_left (heap_effect alarm_sound) fs s) \/
  alarm_active s = true.
Proof.
  intros Hy. induction fs as [|f fs IH] using rev_ind; cbn; [auto|].
  rewrite fold_left_app; cbn. intros Hon.
  destruct (heap_effect_on _ f Hy Hon) as (_ & Hsc & [Habove | [Hprev Hle]]).
  - left; lia.
  - destruct (IH Hprev) as [Hmid | Hs]; [lia | auto].
Qed.

Lemma get_frame_on (c : Capture) (s : State) :
  truthy alarm_sound = true ->
  alarm_active (after (get_frame alarm_sound c s)) = true ->
  SLEEP_THRESHOLD < score (after (get_frame alarm_sound c s)) \/
  alarm_active s = true.
Proof.
  intros Hy. rewrite get_frame_after.
  destruct (success c); cbn; [|auto].
  destruct (faces c) as [|f fs]; [cbn; auto|].
  apply faces_on, Hy.
Qed.

(** When the latch is on after a capture whose read succeeded and that
    showed a face, the last face showed no eye. *)
Lemma get_frame_on_last (c : Capture) (s : State) :
  truthy alarm_sound = true ->
  alarm_active s = false ->
  alarm_active (after (get_frame alarm_sound c s)) = true ->
  success c = true /\
  exists (fs : list Face) (f : Face), faces c = fs ++ [f] /\ eyes f = [].
Proof.
  intros Hy Hoff. rewrite get_frame_after.
  destruct (success c); cbn; [|congruence].
  destruct (faces c) as [|f0 fs0] eqn:E; [cbn; congruence|].
  rewrite <- E. clear E.
  destruct (faces c) as [|f fs _] using rev_ind; [cbn; congruence|].
  rewrite fold_left_app; cbn. intros Hon.
  destruct (heap_effect_on _ f Hy Hon) as (Hf & _).
  split; [reflexivity|]. now exists fs, f.
Qed.

End LatchMoves.

(** C10. When the alarm file was not found at start-up, [alarm_sound] is
    [None] and the latch stays off for every sequence of captures.  A
    capture with one face and no eye still adds 1 to the score and still
    reports "DROWSINESS ALERT!" once the score is above
    [SLEEP_THRESHOLD], but it leaves the latch as it was and makes no call
    on the sound. *)
Theorem latch_stays_off_without_sound (cs : list Capture) :
  load_alarm_sound false = None /\
  alarm_active (run (load_alarm_sound false) cs initial) = false /\
  forall (s : State) (b : Rect),
    let o := get_frame (load_alarm_sound false) (eyes_closed b) s in
    score (after o) = score s + 1 /\
    alarm_active (after o) = alarm_active s /\
    calls o = [] /\
    (SLEEP_THRESHOLD < score s + 1 ->
       hud_status <$> returned o = Some "DROWSINESS ALERT!"%string).
Proof.
  split; [reflexivity|]. split.
  - now rewrite run_silent.
  - intros [sc act] b. unfold get_frame, process_faces, face_body; cbn.
    destruct (Z.gtb_spec (sc + 1) SLEEP_THRESHOLD); cbn.
    + rewrite andb_false_r. repeat split.
    + repeat split. lia.
Qed.

(** C1, as stated, fails.  After 17 captures with no eye the score is 17
    and the latch is on; one capture with an eye leaves the score at 16
    and clears the latch; the next capture with no eye turns the latch on
    again, although the score was already above [SLEEP_THRESHOLD]. *)
Lemma latch_on_again_above_threshold :
  ~ latch_on_only_at_first_crossing the_sound.
Proof.
  intros H.
  specialize (H (closed_streak 17 ++ open_streak 1) (closed_face a_box)).
  cbv zeta in H.
  destruct H as [H _]; [reflexivity | reflexivity |].
  vm_compute in H. apply H. reflexivity.
Qed.

(** C1, amended.  The latch goes from off to on only in a capture that was
    read, with the sound loaded, whose last face shows no eye and after
    which the score is above [SLEEP_THRESHOLD].  When the capture shows
    one face the score after it is the score before it plus 1, so the
    score before it is at least the threshold: it may be exactly the
    threshold (the first crossing) or already above it. *)
Theorem latch_turns_on_only_closed_above
    (alarm_sound : option Sound) (c : Capture) (s : State) :
  alarm_active s = false ->
  alarm_active (after (get_frame alarm_sound c s)) = true ->
  truthy alarm_sound = true /\
  success c = true /\
  (exists (fs : list Face) (f : Face), faces c = fs ++ [f] /\ eyes f = []) /\
  SLEEP_THRESHOLD < score (after (get_frame alarm_sound c s)) /\
  (forall f : Face, faces c = [f] ->
     score (after (get_frame alarm_sound c s)) = score s + 1).
Proof.
  intros Hoff Hon.
  destruct (truthy alarm_sound) eqn:Hy;
    [|rewrite get_frame_silent in Hon by assumption; congruence].
  destruct (get_frame_on_last alarm_sound c s Hy Hoff Hon) as [Hsucc Hlast].
  split; [reflexivity|]. split; [assumption|]. split; [assumption|]. split.
  - destruct (get_frame_on alarm_sound c s Hy Hon); [assumption | congruence].
  - intros f Hf. revert Hon. rewrite get_frame_after, Hsucc, Hf; cbn.
    intros Hon. now destruct (heap_effect_on alarm_sound s f Hy Hon) as (_ & Hsc & _).
Qed.

(** Witness for C1 amended, at the input of the counterexample: the
    score is 16 with the latch off, and the capture with no eye turns the
    latch on at score 17. *)
Lemma latch_turns_on_only_closed_above_witness :
  let s := run the_sound (closed_streak 17 ++ open_streak 1) initial in
  let c := eyes_closed a_box in
  s = mkState 16 false /\
  alarm_active (after (get_frame the_sound c s)) = true /\
  truthy the_sound = true /\
  success c = true /\
  (exists (fs : list Face) (f : Face), faces c = fs ++ [f] /\ eyes f = []) /\
  SLEEP_THRESHOLD < score (after (get_frame the_sound c s)) /\
  (forall f : Face, faces c = [f] ->
     score (after (get_frame the_sound c s)) = score s + 1).
Proof.
  split; [reflexivity|]. split; [reflexivity|].
  apply (latch_turns_on_only_closed_above the_sound (eyes_closed a_box)
           (run the_sound (closed_streak 17 ++ open_streak 1) initial));
    reflexivity.
Defined.

(** C7. In every state reached from the initial state, if the latch is
    on then there is a capture [k] of the run after which the score was
    above [SLEEP_THRESHOLD] and since which the latch has been on after
    every capture: the score exceeded the threshold after the latch was
    last off. *)
Theorem latch_on_has_cause (alarm_sound : option Sound) (cs : list Capture) :
  alarm_active (run alarm_sound cs initial) = true ->
  exists k : nat,
    (1 <= k <= length cs)%nat /\
    SLEEP_THRESHOLD < score (run alarm_sound (take k cs) initial) /\
    forall j : nat, (k <= j <= length cs)%nat ->
      alarm_active (run alarm_sound (take j cs) initial) = true.
Proof.
  destruct (truthy alarm_sound) eqn:Hy;
    [|intros H; rewrite run_silent in H by assumption; discriminate].
  induction cs as [|c cs IH] using rev_ind; [discriminate|].
  rewrite run_snoc. intros Hon.
  destruct (get_frame_on alarm_sound c _ Hy Hon) as [Habove | Hprev].
  - exists (length (cs ++ [c])). rewrite length_app; cbn. split; [lia|].
    rewrite <- (length_app cs [c]) at 1. rewrite take_ge by reflexivity.
    rewrite run_snoc. split; [assumption|].
    intros j Hj. rewrite take_ge by (rewrite length_app; cbn; lia).
    now rewrite run_snoc.
  - destruct (IH Hprev) as (k & Hk & Hsc & Hall).
    exists k. rewrite length_app; cbn. split; [lia|]. split.
    + now rewrite take_app_le by lia.
    + intros j Hj. destruct (decide (j <= length cs)%nat) as [Hle|Hgt].
      * rewrite take_app_le by lia. apply Hall; lia.
      * rewrite take_ge by (rewrite length_app; cbn; lia).
        now rewrite run_snoc.
Qed.

(** Witness for C7: after 16 captures with no eye the latch is on, and
    the theorem yields the capture that caused it. *)
Lemma latch_on_has_cause_witness :
  alarm_active (run the_sound (closed_streak 16) initial) = true /\
  exists k : nat,
    (1 <= k <= length (closed_streak 16))%nat /\
    SLEEP_THRESHOLD < score (run the_sound (take k (closed_streak 16)) initial) /\
    forall j : nat, (k <= j <= length (closed_streak 16))%nat ->
      alarm_active (run the_sound (take j (closed_streak 16)) initial) = true.
Proof.
  split; [reflexivity|].
  apply (latch_on_has_cause the_sound (closed_streak 16)). reflexivity.
Defined.

(** ** Captures with several faces *)

Section SeveralFaces.

Variable alarm_sound : option Sound.

(** Single-face captures fed one after the other reach the heap that
    the loop over the same faces reaches. *)
Lemma run_one_face (fs : list Face) (s : State) :
  run alarm_sound (map one_face fs) s = fold_left (heap_effect alarm_sound) fs s.
Proof.
  revert s; induction fs as [|f fs IH]; intros s; [reflexivity|].
  change (run alarm_sound (map one_face (f :: fs)) s)
    with (run alarm_sound (map one_face fs)
            (after (get_frame alarm_sound (one_face f) s))).
  now rewrite IH, get_frame_after.
Qed.

(** With at least one face the reset does not run and the last face is
    processed on what the loop made of the earlier ones. *)
Lemma process_faces_snoc (fs : list Face) (f : Face) (s : State) :
  process_faces alarm_sound (fs ++ [f]) s =
  face_body alarm_sound
    (fold_left (face_body alarm_sound) fs (mkEnv s "Active" GREEN [])) f.
Proof.
  unfold process_faces. rewrite fold_left_app.
  destruct fs; reflexivity.
Qed.

(** The status a face leaves depends on the heap it finds, not on the
    other locals. *)
Lemma face_body_status (e e' : Env) (f : Face) :
  st e = st e' ->
  status (face_body alarm_sound e f) = status (face_body alarm_sound e' f).
Proof.
  destruct e as [s stt col mx], e' as [s' stt' col' mx']; cbn. intros <-.
  unfold face_body; cbn.
  destruct (length (eyes f) =? 0)%nat; cbn.
  - destruct (score s + 1 >? SLEEP_THRESHOLD); cbn; [|reflexivity].
    destruct (negb (alarm_active s) && truthy alarm_sound); reflexivity.
  - destruct (score s - 1 <? 0); cbn;
      destruct (alarm_active s && truthy alarm_sound); reflexivity.
Qed.

(** A face makes at most one call on the sound. *)
Lemma face_body_mixer (e : Env) (f : Face) :
  (length (mixer (face_body alarm_sound e f)) <= S (length (mixer e)))%nat.
Proof.
  unfold face_body.
  destruct (length (eyes f) =? 0)%nat; cbn.
  - destruct (score (st e) + 1 >? SLEEP_THRESHOLD); cbn; [|lia].
    destruct (negb (alarm_active (st e)) && truthy alarm_sound); cbn;
      rewrite ?length_app; cbn; lia.
  - destruct (score (st e) - 1 <? 0); cbn;
      destruct (alarm_active (st e) && truthy alarm_sound); cbn;
      rewrite ?length_app; cbn; lia.
Qed.

Lemma fold_face_body_mixer (fs : list Face) (e : Env) :
  (length (mixer (fold_left (face_body alarm_sound) fs e))
   <= length (mixer e) + length fs)%nat.
Proof.
  revert e; induction fs as [|f fs IH]; intros e; cbn; [lia|].
  specialize (IH (face_body alarm_sound e f)).
  pose proof (face_body_mixer e f). lia.
Qed.

End SeveralFaces.

(** C2, as stated, fails.  From the initial state a capture with two
    faces, neither showing an eye, leaves the score at 2: the first face
    was processed as well as the last, and the score moved twice. *)
Lemma two_faces_both_count :
  ~ only_last_face_counts the_sound /\ ~ score_mutated_at_most_once the_sound.
Proof.
  split.
  - intros H.
    specialize (H [closed_face a_box] (closed_face a_box) initial).
    vm_compute in H. destruct H as [H _]. discriminate H.
  - intros H.
    specialize (H (mkCapture true [closed_face a_box; closed_face a_box]) initial).
    vm_compute in H. destruct H as [H | H]; [apply H; reflexivity | discriminate H].
Qed.

(** C2, amended.  Every face of a capture is consumed, in iteration
    order: the score and latch after a capture with the faces
    [fs ++ [f]] are those reached by feeding the faces one by one as
    single-face captures, so the score moves once per face; the status
    and the score shown are the ones the last face produces from the state
    the earlier faces left. *)
Theorem every_face_counts
    (alarm_sound : option Sound) (fs : list Face) (f : Face) (s : State) :
  let o := get_frame alarm_sound (mkCapture true (fs ++ [f])) s in
  let s1 := run alarm_sound (map one_face fs) s in
  let o1 := get_frame alarm_sound (one_face f) s1 in
  after o = run alarm_sound (map one_face (fs ++ [f])) s /\
  after o = after o1 /\
  hud_status <$> returned o = hud_status <$> returned o1 /\
  hud_score <$> returned o = hud_score <$> returned o1.
Proof.
  cbv zeta.
  assert (Hafter : after (get_frame alarm_sound (mkCapture true (fs ++ [f])) s) =
                   after (get_frame alarm_sound (one_face f)
                            (run alarm_sound (map one_face fs) s))).
  { rewrite !get_frame_after, run_one_face; cbn.
    rewrite fold_left_app. destruct fs; reflexivity. }
  split; [|split; [exact Hafter|]].
  - rewrite Hafter, map_app, run_app. reflexivity.
  - revert Hafter. unfold get_frame, one_face.
    cbn [success faces negb after returned].
    rewrite process_faces_snoc, (process_faces_snoc alarm_sound [] f).
    cbn [fold_left]. intros Hafter. cbn [fmap option_fmap option_map hud_status hud_score].
    rewrite Hafter. split; [|reflexivity].
    f_equal. apply face_body_status.
    cbn [st]. rewrite fold_face_body_st, run_one_face. reflexivity.
Qed.

(** C8, as stated, fails.  With the score at 15 and the latch off, a
    capture with two faces, the first showing no eye and the second
    showing one, makes the calls [play(-1)] and [stop()] in that order. *)
Lemma start_and_stop_in_one_frame :
  ~ at_most_one_call_per_frame the_sound /\
  calls (get_frame the_sound
           (mkCapture true [closed_face a_box; open_face a_box an_eye []])
           (run the_sound (closed_streak 15) initial))
  = [Play (-1); Stop].
Proof.
  split; [|reflexivity].
  intros H.
  specialize (H (mkCapture true [closed_face a_box; open_face a_box an_eye []])
                (run the_sound (closed_streak 15) initial)).
  vm_compute in H. lia.
Qed.

(** C8, amended.  A capture makes at most one call on the sound per face
    it shows: at most one call when it shows at most one face, and none
    when it shows no face or could not be read. *)
Theorem at_most_one_call_per_face
    (alarm_sound : option Sound) (c : Capture) (s : State) :
  (length (calls (get_frame alarm_sound c s)) <= length (faces c))%nat /\
  (success c = false -> calls (get_frame alarm_sound c s) = []).
Proof.
  unfold get_frame. destruct (success c); cbn; [|split; [lia|reflexivity]].
  split; [|discriminate].
  unfold process_faces.
  pose proof (fold_face_body_mixer alarm_sound (faces c)
                (if (length (faces c) =? 0)%nat
                 then set_status "No Face Found" (set_score 0 (mkEnv s "Active" GREEN []))
                 else mkEnv s "Active" GREEN [])) as H.
  cbv zeta. destruct (length (faces c) =? 0)%nat; cbn in H; lia.
Qed.

(** ** Sessions *)

Lemma video_feed_fresh (p : Process) : cameras p !! (video_feed p).1 = None.
Proof. cbn. apply not_elem_of_dom, is_fresh. Qed.

Lemma view_latch (p : Process) (id : nat) (s : State) :
  view p id = Some s -> alarm_active s = g_alarm_active p.
Proof.
  unfold view. destruct (cameras p !! id); [|discriminate].
  now intros [= <-].
Qed.

(** C9, as stated, fails.  Of two sessions, the first has seen 15
    captures with no eye; its next such capture turns on the latch that
    the second session sees.  A session created after that sees the latch
    on. *)
Lemma latch_is_shared :
  ~ frames_keep_other_latch /\ ~ new_session_latch_off.
Proof.
  split.
  - intros H.
    specialize (H (session_run 0 (closed_streak 15) two_sessions)
                  0%nat 1%nat (eyes_closed a_box)).
    vm_compute in H. specialize (H ltac:(discriminate)). discriminate H.
  - intros H.
    specialize (H (session_run 0 (closed_streak 16) two_sessions)).
    vm_compute in H. discriminate H.
Qed.

(** C9, amended.  Each session owns its score and nothing else: a frame
    processed in session [i] leaves the score of every other session [j]
    as it was, and a new session starts with score 0 and leaves the scores
    of the existing sessions as they were.  The latch is one flag of the
    process: every session sees the value of that flag, and a new session
    sees the value the flag has when the session is created. *)
Theorem sessions_own_score_share_latch
    (p : Process) (i j : nat) (c : Capture) :
  i <> j ->
  score <$> view (next_frame i c p) j = score <$> view p j /\
  (forall s : State, view (next_frame i c p) j = Some s ->
     alarm_active s = g_alarm_active (next_frame i c p)) /\
  view p (video_feed p).1 = None /\
  view (video_feed p).2 (video_feed p).1 = Some (mkState 0 (g_alarm_active p)) /\
  (j <> (video_feed p).1 -> view (video_feed p).2 j = view p j).
Proof.
  intros Hij. split; [|split; [|split; [|split]]].
  - unfold next_frame, view.
    destruct (cameras p !! i) as [cam|]; cbn; [|reflexivity].
    rewrite lookup_insert_ne by assumption.
    destruct (cameras p !! j); reflexivity.
  - intros s. apply view_latch.
  - unfold view. now rewrite video_feed_fresh.
  - unfold view, video_feed; cbn. now rewrite lookup_insert_eq.
  - intros Hj. unfold view. unfold video_feed in *; cbn in *.
    rewrite lookup_insert_ne by congruence. reflexivity.
Qed.

(** Witness for C9 amended, at the input of the counterexample: the
    frame of session 0 turns the shared latch on and leaves the score of
    session 1 at 0. *)
Lemma sessions_own_score_share_latch_witness :
  let p := session_run 0 (closed_streak 15) two_sessions in
  let c := eyes_closed a_box in
  (0 <> 1)%nat /\
  view p 1%nat = Some (mkState 0 false) /\
  view (next_frame 0 c p) 1%nat = Some (mkState 0 true) /\
  score <$> view (next_frame 0 c p) 1%nat = score <$> view p 1%nat /\
  (forall s : State, view (next_frame 0 c p) 1%nat = Some s ->
     alarm_active s = g_alarm_active (next_frame 0 c p)) /\
  view p (video_feed p).1 = None /\
  view (video_feed p).2 (video_feed p).1 = Some (mkState 0 (g_alarm_active p)) /\
  (1%nat <> (video_feed p).1 -> view (video_feed p).2 1%nat = view p 1%nat).
Proof.
  cbv zeta.
  split; [discriminate|]. split; [vm_compute; reflexivity|].
  split; [vm_compute; reflexivity|].
  apply (sessions_own_score_share_latch
           (session_run 0 (closed_streak 15) two_sessions) 0%nat 1%nat
           (eyes_closed a_box)).
  discriminate.
Defined.

(** ** The scenarios of the specification, run on the code *)

(** 16 captures with no eye: score 16, latch on at the 16th and not
    before, status "DROWSINESS ALERT!". *)
Example scenario_sixteen_closed :
  run the_sound (closed_streak 15) initial = mkState 15 false /\
  get_frame the_sound (eyes_closed a_box) (mkState 15 false) =
  mkOut (mkState 16 true) (Some (mkHud "DROWSINESS ALERT!" RED 16)) [Play (-1)].
Proof. split; reflexivity. Qed.

(** From there one capture with an eye: score 15, latch off, "Awake". *)
Example scenario_then_open :
  get_frame the_sound (eyes_open a_box an_eye []) (mkState 16 true) =
  mkOut (mkState 15 false) (Some (mkHud "Awake" GREEN 15)) [Stop].
Proof. reflexivity. Qed.

(** 5 closed, 3 open, 1 face lost: the score path is 1,2,3,4,5,4,3,2,0. *)
Example scenario_score_path :
  map (fun k => score (run the_sound
                         (take k (closed_streak 5 ++ open_streak 3 ++ [face_lost]))
                         initial))
      (seq 1 9)
  = [1; 2; 3; 4; 5; 4; 3; 2; 0].
Proof. reflexivity. Qed.

(** A capture that could not be read changes nothing and returns
    nothing. *)
Example scenario_failed_read (alarm_sound : option Sound) (fs : list Face) (s : State) :
  get_frame alarm_sound (mkCapture false fs) s = mkOut s None [].
Proof. reflexivity. Qed.

(** ** Further properties of the scoring loop *)

Section Debounce.

Variable alarm_sound : option Sound.

Lemma heap_effect_budget (s : State) (f : Face) (n : nat) :
  within_budget s n ->
  within_budget (heap_effect alarm_sound s f) (count_closed [f] + n).
Proof.
  unfold within_budget, heap_effect; cbn. intros [Hsc Hon].
  destruct (length (eyes f) =? 0)%nat; cbn.
  - split; [lia|].
    destruct (Z.gtb_spec (score s + 1) SLEEP_THRESHOLD) as [Hgt|Hle]; [lia|].
    intros Hact. specialize (Hon Hact). lia.
  - split; [lia|].
    intros Hact. apply andb_true_iff in Hact as [Hact' _]. auto.
Qed.

Lemma faces_budget (fs : list Face) (s : State) (n : nat) :
  within_budget s n ->
  within_budget (fold_left (heap_effect alarm_sound) fs s) (count_closed fs + n).
Proof.
  revert s n. induction fs as [|f fs IH]; intros s n Hs; [exact Hs|].
  cbn [fold_left].
  replace (count_closed (f :: fs) + n)%nat
    with (count_closed fs + (count_closed [f] + n))%nat by (cbn; lia).
  apply IH, heap_effect_budget, Hs.
Qed.

Lemma get_frame_budget (c : Capture) (s : State) (n : nat) :
  within_budget s n ->
  within_budget (after (get_frame alarm_sound c s)) (closed_seen [c] + n).
Proof.
  intros Hs. rewrite get_frame_after. cbn [closed_seen].
  destruct (success c); cbn [negb]; [|exact Hs].
  destruct (faces c) as [|f fs] eqn:E.
  - destruct Hs as [Hsc Hon]. split; cbn; [lia | exact Hon].
  - rewrite Nat.add_0_r. now apply faces_budget.
Qed.

Lemma run_budget (cs : list Capture) (s : State) (n : nat) :
  within_budget s n ->
  within_budget (run alarm_sound cs s) (closed_seen cs + n).
Proof.
  revert s n. induction cs as [|c cs IH]; intros s n Hs; [exact Hs|].
  change (run alarm_sound (c :: cs) s)
    with (run alarm_sound cs (after (get_frame alarm_sound c s))).
  replace (closed_seen (c :: cs) + n)%nat
    with (closed_seen cs + (closed_seen [c] + n))%nat by (cbn; lia).
  apply IH, get_frame_budget, Hs.
Qed.

End Debounce.

(** X1. The debounce.  In a session started from the initial state the
    score never exceeds the number of eyes-closed observations made so
    far (faces without eyes, in captures that were read), and the latch is
    on only after more than [SLEEP_THRESHOLD] of them: the alarm cannot
    start before the 16th. *)
Theorem alarm_needs_sixteen_closed (alarm_sound : option Sound) (cs : list Capture) :
  score (run alarm_sound cs initial) <= Z.of_nat (closed_seen cs) /\
  (alarm_active (run alarm_sound cs initial) = true ->
   (16 <= closed_seen cs)%nat).
Proof.
  destruct (run_budget alarm_sound cs initial 0) as [Hsc Hon].
  - split; [cbn; lia | discriminate].
  - rewrite Nat.add_0_r in *. split; [exact Hsc|].
    intros H. specialize (Hon H). unfold SLEEP_THRESHOLD in Hon. lia.
Qed.

(** The score after a face depends on the score before it and on nothing
    else. *)
Lemma heap_effect_score (snd1 snd2 : option Sound) (s1 s2 : State) (f : Face) :
  score s1 = score s2 ->
  score (heap_effect snd1 s1 f) = score (heap_effect snd2 s2 f).
Proof.
  intros H. unfold heap_effect.
  destruct (length (eyes f) =? 0)%nat; cbn; now rewrite H.
Qed.

Lemma get_frame_score (snd1 snd2 : option Sound) (c : Capture) (s1 s2 : State) :
  score s1 = score s2 ->
  score (after (get_frame snd1 c s1)) = score (after (get_frame snd2 c s2)).
Proof.
  intros H. rewrite !get_frame_after.
  destruct (success c); cbn [negb]; [|exact H].
  destruct (faces c) as [|f fs]; [reflexivity|].
  generalize (f :: fs) as l. intros l. revert s1 s2 H.
  induction l as [|g l IH]; intros s1 s2 H; [exact H|].
  cbn [fold_left]. apply IH, heap_effect_score, H.
Qed.

Lemma run_score (snd1 snd2 : option Sound) (cs : list Capture) (s1 s2 : State) :
  score s1 = score s2 ->
  score (run snd1 cs s1) = score (run snd2 cs s2).
Proof.
  revert s1 s2. induction cs as [|c cs IH]; intros s1 s2 H; [exact H|].
  change (score (run snd1 cs (after (get_frame snd1 c s1))) =
          score (run snd2 cs (after (get_frame snd2 c s2)))).
  apply IH, get_frame_score, H.
Qed.

(** X2. The score is a function of the captures alone: whether the sound
    was loaded and whether the latch is on never changes the score a
    sequence of captures leads to. *)
Theorem score_ignores_latch_and_sound
    (snd1 snd2 : option Sound) (cs : list Capture) (z : Z) (b1 b2 : bool) :
  score (run snd1 cs (mkState z b1)) = score (run snd2 cs (mkState z b2)).
Proof. apply run_score. reflexivity. Qed.

(** X3. A capture that could not be read is skipped altogether: a run
    reaches the state, and makes the calls on the sound, of the run over
    the captures that were read.  Unlike a capture without a face, a
    failed read does not reset the score. *)
Theorem failed_reads_are_skipped
    (alarm_sound : option Sound) (cs : list Capture) (s : State) :
  run alarm_sound cs s = run alarm_sound (read_ok cs) s /\
  run_calls alarm_sound cs s = run_calls alarm_sound (read_ok cs) s.
Proof.
  revert s. induction cs as [|c cs IH]; intros s; [split; reflexivity|].
  cbn [read_ok]. destruct (success c) eqn:E.
  - change (run alarm_sound (c :: cs) s)
      with (run alarm_sound cs (after (get_frame alarm_sound c s))).
    change (run alarm_sound (c :: read_ok cs) s)
      with (run alarm_sound (read_ok cs) (after (get_frame alarm_sound c s))).
    cbn [run_calls].
    destruct (IH (after (get_frame alarm_sound c s))) as [-> ->].
    split; reflexivity.
  - change (run alarm_sound (c :: cs) s)
      with (run alarm_sound cs (after (get_frame alarm_sound c s))).
    cbn [run_calls]. unfold get_frame. rewrite E. cbn.
    apply IH.
Qed.

(** ** Streaks *)

Lemma heap_effect_closed (alarm_sound : option Sound) (s : State) (f : Face) :
  eyes f = [] ->
  heap_effect alarm_sound s f =
  mkState (score s + 1)
          (if score s + 1 >? SLEEP_THRESHOLD
           then alarm_active s || truthy alarm_sound
           else alarm_active s).
Proof. intros Hf. unfold heap_effect. now rewrite Hf. Qed.

Lemma heap_effect_open (alarm_sound : option Sound) (s : State) (f : Face) :
  eyes f <> [] ->
  heap_effect alarm_sound s f =
  mkState (Z.max 0 (score s - 1)) (alarm_active s && negb (truthy alarm_sound)).
Proof.
  intros Hf. unfold heap_effect.
  destruct (eyes f); [congruence | reflexivity].
Qed.

(** X4. A streak of [n >= 1] single-face captures without eyes adds
    exactly [n] to the score, from any state.  The latch ends on when it
    was on before; when it was off it ends on exactly if the sound is
    loaded and the final score is above [SLEEP_THRESHOLD]. *)
Theorem closed_streak_adds
    (alarm_sound : option Sound) (f : Face) (fs : list Face) (s : State) :
  Forall (fun g => eyes g = []) (f :: fs) ->
  run alarm_sound (map one_face (f :: fs)) s =
  mkState (score s + Z.of_nat (length (f :: fs)))
          (if score s + Z.of_nat (length (f :: fs)) >? SLEEP_THRESHOLD
           then alarm_active s || truthy alarm_sound
           else alarm_active s).
Proof.
  rewrite run_one_face. revert f s.
  induction fs as [|g fs IH]; intros f s Hall.
  - apply Forall_cons in Hall as [Hf _].
    cbn [fold_left length]. rewrite heap_effect_closed by assumption.
    reflexivity.
  - apply Forall_cons in Hall as [Hf Hall].
    cbn [fold_left] in *. rewrite IH by assumption.
    rewrite heap_effect_closed by assumption. cbn [score alarm_active].
    replace (score s + 1 + Z.of_nat (length (g :: fs)))
      with (score s + Z.of_nat (length (f :: g :: fs)))
      by (cbn [length]; lia).
    f_equal.
    destruct (Z.gtb_spec (score s + Z.of_nat (length (f :: g :: fs))) SLEEP_THRESHOLD)
      as [Hgt|Hle];
      destruct (Z.gtb_spec (score s + 1) SLEEP_THRESHOLD) as [Hgt1|Hle1];
      try reflexivity.
    + destruct (alarm_active s), (truthy alarm_sound); reflexivity.
    + cbn [length] in Hle. lia.
Qed.

Lemma closed_streak_adds_witness :
  Forall (fun g => eyes g = []) [closed_face a_box; closed_face a_box] /\
  run the_sound (map one_face [closed_face a_box; closed_face a_box]) (mkState 14 false) =
  mkState (14 + Z.of_nat 2) (if 14 + Z.of_nat 2 >? SLEEP_THRESHOLD
                             then false || truthy the_sound else false).
Proof.
  assert (H : Forall (fun g => eyes g = []) [closed_face a_box; closed_face a_box])
    by (repeat constructor).
  split; [exact H|].
  exact (closed_streak_adds the_sound (closed_face a_box) [closed_face a_box]
           (mkState 14 false) H).
Defined.

(** X5. A streak of [n >= 1] single-face captures with eyes takes [n] off
    the score, stopping at 0, from any state; the latch ends off, unless
    it was on with no sound loaded. *)
Theorem open_streak_subtracts
    (alarm_sound : option Sound) (f : Face) (fs : list Face) (s : State) :
  Forall (fun g => eyes g <> []) (f :: fs) ->
  run alarm_sound (map one_face (f :: fs)) s =
  mkState (Z.max 0 (score s - Z.of_nat (length (f :: fs))))
          (alarm_active s && negb (truthy alarm_sound)).
Proof.
  rewrite run_one_face. revert f s.
  induction fs as [|g fs IH]; intros f s Hall.
  - apply Forall_cons in Hall as [Hf _].
    cbn [fold_left length]. rewrite heap_effect_open by assumption.
    reflexivity.
  - apply Forall_cons in Hall as [Hf Hall].
    cbn [fold_left] in *. rewrite IH by assumption.
    rewrite heap_effect_open by assumption. cbn [score alarm_active].
    f_equal.
    + cbn [length]. lia.
    + destruct (alarm_active s), (truthy alarm_sound); reflexivity.
Qed.

Lemma open_streak_subtracts_witness :
  Forall (fun g => eyes g <> [])
         [open_face a_box an_eye []; open_face a_box an_eye []; open_face a_box an_eye []] /\
  run the_sound
      (map one_face
           [open_face a_box an_eye []; open_face a_box an_eye []; open_face a_box an_eye []])
      (mkState 2 true) =
  mkState (Z.max 0 (2 - Z.of_nat 3)) (true && negb (truthy the_sound)).
Proof.
  assert (H : Forall (fun g => eyes g <> [])
                [open_face a_box an_eye []; open_face a_box an_eye [];
                 open_face a_box an_eye []])
    by (repeat constructor; discriminate).
  split; [exact H|].
  exact (open_streak_subtracts the_sound (open_face a_box an_eye [])
           [open_face a_box an_eye []; open_face a_box an_eye []]
           (mkState 2 true) H).
Defined.

(** ** The latch mirrors the sound *)

Lemma replay_app (b b1 : bool) (l1 l2 : list MixerCall) :
  replay b l1 = Some b1 -> replay b (l1 ++ l2) = replay b1 l2.
Proof.
  revert b. induction l1 as [|m l1 IH]; intros b; cbn.
  - now intros [= ->].
  - destruct m, b; try discriminate; apply IH.
Qed.

Lemma face_body_replay (alarm_sound : option Sound) (b0 : bool) (e : Env) (f : Face) :
  replay b0 (mixer e) = Some (alarm_active (st e)) ->
  replay b0 (mixer (face_body alarm_sound e f)) =
  Some (alarm_active (st (face_body alarm_sound e f))).
Proof.
  intros He. unfold face_body.
  destruct (length (eyes f) =? 0)%nat; cbn.
  - destruct (score (st e) + 1 >? SLEEP_THRESHOLD); cbn; [|exact He].
    destruct (alarm_active (st e)) eqn:Ea, (truthy alarm_sound); cbn;
      rewrite ?Ea; try exact He.
    now rewrite (replay_app _ _ _ _ He).
  - destruct (score (st e) - 1 <? 0); cbn;
      destruct (alarm_active (st e)) eqn:Ea, (truthy alarm_sound); cbn;
      rewrite ?Ea; try exact He;
      now rewrite (replay_app _ _ _ _ He).
Qed.

Lemma fold_face_body_replay
    (alarm_sound : option Sound) (b0 : bool) (fs : list Face) (e : Env) :
  replay b0 (mixer e) = Some (alarm_active (st e)) ->
  replay b0 (mixer (fold_left (face_body alarm_sound) fs e)) =
  Some (alarm_active (st (fold_left (face_body alarm_sound) fs e))).
Proof.
  revert e. induction fs as [|f fs IH]; intros e He; [exact He|].
  cbn [fold_left]. apply IH, face_body_replay, He.
Qed.

Lemma get_frame_replay (alarm_sound : option Sound) (c : Capture) (s : State) :
  replay (alarm_active s) (calls (get_frame alarm_sound c s)) =
  Some (alarm_active (after (get_frame alarm_sound c s))).
Proof.
  unfold get_frame. destruct (success c); cbn [negb]; [|reflexivity].
  cbn [calls after]. unfold process_faces.
  apply fold_face_body_replay.
  destruct (length (faces c) =? 0)%nat; reflexivity.
Qed.

(** X6. The calls a session makes on the sound never repeat: from a
    state whose latch says whether the sound is playing, every [play(-1)]
    finds the sound silent and every [stop()] finds it playing, over any
    sequence of captures, and at the end the latch again says whether the
    sound is playing. *)
Theorem latch_mirrors_sound
    (alarm_sound : option Sound) (cs : list Capture) (s : State) :
  replay (alarm_active s) (run_calls alarm_sound cs s) =
  Some (alarm_active (run alarm_sound cs s)).
Proof.
  revert s. induction cs as [|c cs IH]; intros s; [reflexivity|].
  cbn [run_calls].
  rewrite (replay_app _ _ _ _ (get_frame_replay alarm_sound c s)).
  apply IH.
Qed.

(** ** What silences the alarm *)

Section Release.

Variable alarm_sound : option Sound.

(** A face that leaves the latch on when it finds it on shows no eye, or
    the sound is not loaded; the other way round, a face after which the
    latch is off although it was on shows an eye. *)
Lemma heap_effect_off (s : State) (f : Face) :
  alarm_active s = true ->
  alarm_active (heap_effect alarm_sound s f) = false ->
  eyes f <> [].
Proof.
  intros Hon Hoff Hf. rewrite heap_effect_closed in Hoff by assumption.
  cbn in Hoff. rewrite Hon in Hoff.
  destruct (score s + 1 >? SLEEP_THRESHOLD); discriminate.
Qed.

Lemma faces_off (fs : list Face) (s : State) :
  alarm_active s = true ->
  alarm_active (fold_left (heap_effect alarm_sound) fs s) = false ->
  exists f : Face, In f fs /\ eyes f <> [].
Proof.
  revert s. induction fs as [|f fs IH]; intros s Hon Hoff; [cbn in Hoff; congruence|].
  cbn [fold_left] in Hoff.
  destruct (alarm_active (heap_effect alarm_sound s f)) eqn:E.
  - destruct (IH _ E Hoff) as (g & Hg & Hopen). exists g. split; [now right | exact Hopen].
  - exists f. split; [now left | exact (heap_effect_off s f Hon E)].
Qed.

Lemma get_frame_off (c : Capture) (s : State) :
  alarm_active s = true ->
  alarm_active (after (get_frame alarm_sound c s)) = false ->
  success c = true /\ exists f : Face, In f (faces c) /\ eyes f <> [].
Proof.
  intros Hon. rewrite get_frame_after.
  destruct (success c); cbn [negb]; [|congruence].
  destruct (faces c) as [|f fs] eqn:E; [cbn; congruence|].
  intros Hoff. split; [reflexivity|]. now apply (faces_off (f :: fs) s).
Qed.

End Release.

(** X7. Only an eye silences the alarm.  When the latch is on before a
    sequence of captures and off after it, the sound is loaded and one of
    the captures was read and shows a face in which an eye was found.
    Captures without a face, captures that cannot be read and faces
    without eyes never turn the latch off. *)
Theorem only_an_eye_clears_the_latch
    (alarm_sound : option Sound) (cs : list Capture) (s : State) :
  alarm_active s = true ->
  alarm_active (run alarm_sound cs s) = false ->
  truthy alarm_sound = true /\
  exists (c : Capture) (f : Face),
    In c cs /\ success c = true /\ In f (faces c) /\ eyes f <> [].
Proof.
  intros Hon Hoff. split.
  - destruct (truthy alarm_sound) eqn:Hy; [reflexivity|].
    rewrite run_silent in Hoff by assumption. congruence.
  - revert s Hon Hoff. induction cs as [|c cs IH]; intros s Hon Hoff;
      [cbn in Hoff; congruence|].
    change (run alarm_sound (c :: cs) s)
      with (run alarm_sound cs (after (get_frame alarm_sound c s))) in Hoff.
    destruct (alarm_active (after (get_frame alarm_sound c s))) eqn:E.
    + destruct (IH _ E Hoff) as (c' & f & Hc' & Hrest).
      exists c', f. split; [now right | exact Hrest].
    + destruct (get_frame_off alarm_sound c s Hon E) as (Hsucc & f & Hf & Hopen).
      exists c, f. split; [now left|]. auto.
Qed.

Lemma only_an_eye_clears_the_latch_witness :
  alarm_active (mkState 16 true) = true /\
  alarm_active (run the_sound [face_lost; eyes_open a_box an_eye []] (mkState 16 true)) = false /\
  truthy the_sound = true /\
  exists (c : Capture) (f : Face),
    In c [face_lost; eyes_open a_box an_eye []] /\
    success c = true /\ In f (faces c) /\ eyes f <> [].
Proof.
  split; [reflexivity|]. split; [reflexivity|].
  apply (only_an_eye_clears_the_latch the_sound
           [face_lost; eyes_open a_box an_eye []] (mkState 16 true));
    reflexivity.
Defined.

(** ** The overlay *)

Section Overlay.

Variable alarm_sound : option Sound.

Lemma face_body_status_of (e : Env) (f : Face) :
  status (face_body alarm_sound e f) =
  status_of (Some f) (score (st (face_body alarm_sound e f))).
Proof.
  rewrite face_body_st. unfold face_body, heap_effect, status_of.
  destruct (length (eyes f) =? 0)%nat; cbn.
  - destruct (score (st e) + 1 >? SLEEP_THRESHOLD); cbn; [|reflexivity].
    destruct (negb (alarm_active (st e)) && truthy alarm_sound); reflexivity.
  - destruct (score (st e) - 1 <? 0); cbn;
      destruct (alarm_active (st e) && truthy alarm_sound); reflexivity.
Qed.

Lemma process_faces_status (fs : list Face) (s : State) :
  status (process_faces alarm_sound fs s) =
  status_of (last fs) (score (st (process_faces alarm_sound fs s))).
Proof.
  destruct fs as [|f fs _] using rev_ind; [reflexivity|].
  rewrite last_snoc, process_faces_snoc. apply face_body_status_of.
Qed.

(** The latch after the last face, when the sound is loaded: on after a
    face without eyes that leaves the score above the threshold, off
    after a face with eyes. *)
Lemma process_faces_latch (fs : list Face) (f : Face) (s : State) :
  truthy alarm_sound = true ->
  let e := process_faces alarm_sound (fs ++ [f]) s in
  (eyes f = [] -> SLEEP_THRESHOLD < score (st e) -> alarm_active (st e) = true) /\
  (eyes f <> [] -> alarm_active (st e) = false).
Proof.
  intros Hy. cbv zeta. rewrite process_faces_snoc, face_body_st. split.
  - intros Hf. rewrite heap_effect_closed by assumption. cbn. rewrite Hy.
    intros Hgt. destruct (Z.gtb_spec (score (st (fold_left (face_body alarm_sound) fs
                            (mkEnv s "Active" GREEN []))) + 1) SLEEP_THRESHOLD); [|lia].
    apply orb_true_r.
  - intros Hf. rewrite heap_effect_open by assumption. cbn. rewrite Hy.
    apply andb_false_r.
Qed.

End Overlay.

(** X8. The status line of a capture that was read is decided by the
    last face processed and by the score reached: "No Face Found" without
    a face; after a last face without eyes "DROWSINESS ALERT!" when the
    final score is above [SLEEP_THRESHOLD] and "Eyes Closed" otherwise;
    "Awake" after a last face with eyes.  The initial label "Active" is
    never shown, and the score shown is the score stored. *)
Theorem status_line_of_last_face
    (alarm_sound : option Sound) (fs : list Face) (s : State) :
  let o := get_frame alarm_sound (mkCapture true fs) s in
  hud_status <$> returned o = Some (status_of (last fs) (score (after o))) /\
  hud_score <$> returned o = Some (score (after o)) /\
  hud_status <$> returned o <> Some "Active"%string.
Proof.
  cbv zeta. unfold get_frame. cbn [success negb faces returned after fmap option_fmap option_map hud_status hud_score].
  rewrite process_faces_status. split; [reflexivity|]. split; [reflexivity|].
  unfold status_of. destruct (last fs) as [f|]; [|discriminate].
  destruct (length (eyes f) =? 0)%nat; [|discriminate].
  destruct (_ >? _); discriminate.
Qed.

(** X9. With the sound loaded, what the overlay says and what the alarm
    does agree after every capture that was read, from any state: under
    "DROWSINESS ALERT!" the latch is on, under "Awake" it is off. *)
Theorem overlay_agrees_with_alarm
    (alarm_sound : option Sound) (fs : list Face) (s : State) :
  truthy alarm_sound = true ->
  let o := get_frame alarm_sound (mkCapture true fs) s in
  (hud_status <$> returned o = Some "DROWSINESS ALERT!"%string ->
   alarm_active (after o) = true) /\
  (hud_status <$> returned o = Some "Awake"%string ->
   alarm_active (after o) = false).
Proof.
  intros Hy. cbv zeta. unfold get_frame.
  cbn [success negb faces returned after fmap option_fmap option_map hud_status].
  rewrite process_faces_status.
  destruct fs as [|f fs _] using rev_ind; [split; discriminate|].
  rewrite last_snoc.
  destruct (process_faces_latch alarm_sound fs f s Hy) as [Hclosed Hopen].
  unfold status_of. destruct (eyes f) as [|e es] eqn:Ef; cbn [length Nat.eqb].
  - destruct (Z.gtb_spec (score (st (process_faces alarm_sound (fs ++ [f]) s)))
                SLEEP_THRESHOLD) as [Hgt|Hle]; split; try discriminate.
    intros _. now apply Hclosed.
  - split; [discriminate|]. intros _. now apply Hopen.
Qed.

Lemma overlay_agrees_with_alarm_witness :
  truthy the_sound = true /\
  let o := get_frame the_sound
             (mkCapture true [open_face a_box an_eye []; closed_face a_box])
             (mkState 16 true) in
  (hud_status <$> returned o = Some "DROWSINESS ALERT!"%string ->
   alarm_active (after o) = true) /\
  (hud_status <$> returned o = Some "Awake"%string ->
   alarm_active (after o) = false).
Proof.
  split; [reflexivity|].
  apply (overlay_agrees_with_alarm the_sound
           [open_face a_box an_eye []; closed_face a_box] (mkState 16 true)).
  reflexivity.
Defined.

(** ** The banner and the colour of the status line *)

Section Banner.

Variable alarm_sound : option Sound.

(** Whether the face [f], processed in the state [e], raises the alert:
    no eye, and a score above the threshold once incremented. *)
Lemma face_body_color (e : Env) (f : Face) :
  color (face_body alarm_sound e f) =
  if (length (eyes f) =? 0)%nat && (score (st e) + 1 >? SLEEP_THRESHOLD)
  then RED else color e.
Proof.
  unfold face_body.
  destruct (length (eyes f) =? 0)%nat; cbn.
  - destruct (score (st e) + 1 >? SLEEP_THRESHOLD); cbn; [|reflexivity].
    destruct (negb (alarm_active (st e)) && truthy alarm_sound); reflexivity.
  - destruct (score (st e) - 1 <? 0); cbn;
      destruct (alarm_active (st e) && truthy alarm_sound); reflexivity.
Qed.

Lemma eye_boxes_no_banner (roi : Rect) (l : list Rect) :
  existsb is_banner (map (eye_box roi) l) = false.
Proof.
  induction l as [|[[[ex ey] ew] eh] l IH]; [reflexivity|exact IH].
Qed.

Lemma face_draws_banner (e : Env) (f : Face) :
  existsb is_banner (face_draws e f) =
  (length (eyes f) =? 0)%nat && (score (st e) + 1 >? SLEEP_THRESHOLD).
Proof.
  unfold face_draws. destruct (box f) as [[[x y] w] h]. cbn [existsb is_banner orb].
  destruct (length (eyes f) =? 0)%nat; cbn [andb].
  - cbn [set_score st score]. destruct (score (st e) + 1 >? SLEEP_THRESHOLD); reflexivity.
  - apply eye_boxes_no_banner.
Qed.


(** Over the loop: the status colour ends red exactly if it was red
    before or a banner was drawn. *)
Lemma loop_draws_banner (e : Env) (fs : list Face) :
  color (fold_left (face_body alarm_sound) fs e) = RED <->
  existsb is_banner (loop_draws alarm_sound e fs) = true \/ color e = RED.
Proof.
  revert e. induction fs as [|f fs IH]; intros e.
  - cbn. split; [auto | intros [H|H]; [discriminate | exact H]].
  - cbn [fold_left loop_draws]. rewrite IH, existsb_app, orb_true_iff.
    rewrite face_draws_banner, face_body_color.
    destruct ((length (eyes f) =? 0)%nat && (score (st e) + 1 >? SLEEP_THRESHOLD)).
    + split; auto.
    + split; [intros [H|H]; auto | intros [[H|H]|H]; auto; discriminate].
Qed.

Lemma hud_draws_no_banner (e : Env) : existsb is_banner (hud_draws e) = false.
Proof. reflexivity. Qed.

End Banner.

(** X10. The status line is drawn in red exactly when a "WAKE UP!"
    banner was drawn in the same frame.  The colour is set with the
    banner and not reset by later faces, so with several faces the line
    can be red under another status than "DROWSINESS ALERT!". *)
Theorem red_status_iff_banner
    (alarm_sound : option Sound) (fs : list Face) (s : State) :
  hud_color <$> returned (get_frame alarm_sound (mkCapture true fs) s) = Some RED <->
  existsb is_banner (frame_draws alarm_sound (mkCapture true fs) s) = true.
Proof.
  unfold get_frame, frame_draws.
  cbn [success negb faces returned fmap option_fmap option_map hud_color].
  rewrite existsb_app, hud_draws_no_banner, orb_false_r.
  unfold process_faces. cbv zeta.
  split.
  - intros [= H]. apply loop_draws_banner in H as [H|H]; [exact H|].
    destruct (length fs =? 0)%nat; discriminate H.
  - intros H. f_equal. apply loop_draws_banner. now left.
Qed.



(** ** Interleaved sessions *)

Lemma next_frame_sound (id : nat) (c : Capture) (p : Process) :
  g_alarm_sound (next_frame id c p) = g_alarm_sound p.
Proof. unfold next_frame. destruct (view p id); reflexivity. Qed.

Lemma next_frame_other (i j : nat) (c : Capture) (p : Process) :
  i <> j -> cameras (next_frame i c p) !! j = cameras p !! j.
Proof.
  intros Hij. unfold next_frame. destruct (view p i); [|reflexivity].
  cbn. now rewrite lookup_insert_ne.
Qed.

Lemma next_frame_own (id : nat) (c : Capture) (p : Process) (cam : VideoCamera) :
  cameras p !! id = Some cam ->
  let o := get_frame (g_alarm_sound p) c (mkState (self_score cam) (g_alarm_active p)) in
  cameras (next_frame id c p) !! id = Some (mkCamera (score (after o))) /\
  g_alarm_active (next_frame id c p) = alarm_active (after o).
Proof.
  intros Hcam. unfold next_frame, view. rewrite Hcam. cbn.
  now rewrite lookup_insert_eq.
Qed.

(** X12. However the frames of the sessions are interleaved, the score of
    a session is the score its own captures lead to, taken in order, from
    the score it had: frames of other sessions, and what they do to the
    shared latch, leave no trace in it. *)
Theorem session_score_is_its_own
    (sched : list (nat * Capture)) (p : Process) (id : nat) (cam : VideoCamera) :
  cameras p !! id = Some cam ->
  self_score <$> cameras (serve sched p) !! id =
  Some (score (run (g_alarm_sound p) (captures_of id sched)
                   (mkState (self_score cam) (g_alarm_active p)))).
Proof.
  revert p cam. induction sched as [|[i c] sched IH]; intros p cam Hcam.
  - cbn. now rewrite Hcam.
  - change (serve ((i, c) :: sched) p) with (serve sched (next_frame i c p)).
    cbn [captures_of fst snd]. destruct (Nat.eqb_spec i id) as [->|Hne].
    + destruct (next_frame_own id c p cam Hcam) as [Hown Hlatch].
      rewrite (IH _ _ Hown), next_frame_sound, Hlatch. cbn [self_score].
      change (run (g_alarm_sound p) (c :: captures_of id sched)
                (mkState (self_score cam) (g_alarm_active p)))
        with (run (g_alarm_sound p) (captures_of id sched)
                (after (get_frame (g_alarm_sound p) c
                          (mkState (self_score cam) (g_alarm_active p))))).
      now destruct (after _).
    + rewrite (IH _ cam) by (now rewrite next_frame_other).
      rewrite next_frame_sound. f_equal. now apply run_score.
Qed.

Lemma session_score_is_its_own_witness :
  let sched := [(0%nat, eyes_closed a_box); (1%nat, eyes_open a_box an_eye []);
                (0%nat, eyes_closed a_box)] in
  cameras two_sessions !! 0%nat = Some (mkCamera 0) /\
  self_score <$> cameras (serve sched two_sessions) !! 0%nat =
  Some (score (run (g_alarm_sound two_sessions) (captures_of 0 sched)
                   (mkState (self_score (mkCamera 0)) (g_alarm_active two_sessions)))).
Proof.
  cbv zeta.
  assert (H : cameras two_sessions !! 0%nat = Some (mkCamera 0))
    by (vm_compute; reflexivity).
  split; [exact H|].
  exact (session_score_is_its_own
           [(0%nat, eyes_closed a_box); (1%nat, eyes_open a_box an_eye []);
            (0%nat, eyes_closed a_box)]
           two_sessions 0%nat (mkCamera 0) H).
Defined.


(** ** How far one capture can move the score *)

Lemma faces_score_step (alarm_sound : option Sound) (fs : list Face) (s : State) :
  0 <= score s ->
  0 <= score (fold_left (heap_effect alarm_sound) fs s) /\
  Z.abs (score (fold_left (heap_effect alarm_sound) fs s) - score s)
  <= Z.of_nat (length fs).
Proof.
  revert s. induction fs as [|f fs IH]; intros s Hs; [cbn; lia|].
  cbn [fold_left length].
  pose proof (heap_effect_nonneg alarm_sound s f Hs) as H1.
  destruct (IH _ H1) as [H2 H3].
  split; [exact H2|].
  assert (Z.abs (score (heap_effect alarm_sound s f) - score s) <= 1).
  { unfold heap_effect. destruct (length (eyes f) =? 0)%nat; cbn; lia. }
  lia.
Qed.

(** X14. A capture that shows faces moves a non-negative score by at most
    one per face, up or down; only a capture without any face can take
    more off, by resetting the score to 0. *)
Theorem score_moves_at_most_one_per_face
    (alarm_sound : option Sound) (c : Capture) (s : State) :
  0 <= score s ->
  faces c <> [] ->
  Z.abs (score (after (get_frame alarm_sound c s)) - score s)
  <= Z.of_nat (length (faces c)).
Proof.
  intros Hs Hne. rewrite get_frame_after.
  destruct (success c); cbn [negb]; [|lia].
  destruct (faces c) as [|f fs] eqn:E; [congruence|].
  now apply faces_score_step.
Qed.

Lemma score_moves_at_most_one_per_face_witness :
  0 <= score (mkState 3 false) /\
  faces (mkCapture true [closed_face a_box; closed_face a_box]) <> [] /\
  Z.abs (score (after (get_frame the_sound
                         (mkCapture true [closed_face a_box; closed_face a_box])
                         (mkState 3 false))) - score (mkState 3 false))
  <= Z.of_nat (length (faces (mkCapture true [closed_face a_box; closed_face a_box]))).
Proof.
  assert (H1 : 0 <= score (mkState 3 false)) by (cbn; lia).
  assert (H2 : faces (mkCapture true [closed_face a_box; closed_face a_box]) <> [])
    by discriminate.
  split; [exact H1|]. split; [exact H2|].
  exact (score_moves_at_most_one_per_face the_sound
           (mkCapture true [closed_face a_box; closed_face a_box])
           (mkState 3 false) H1 H2).
Defined.

(** ** Every state of the process *)


